(** * generate_migration.py: the timeseries-maintenance migration generator

    A shallow embedding of [src/main/pgdb/migrations/postgres/generate_migration.py]
    and the properties of its output.

    Text.  A Python [str] is modelled by [string]; a character is a code
    point below 256 (Latin-1), on which [str.lower] is a per-character,
    length-preserving map.  The script itself is modelled on such text; the
    derivation of a Table Name is modelled a second time on lists of code
    points, with the few rows of the Unicode case table that the section on
    names beyond Latin-1 lists.

    File system.  Files and directory listings are finite maps keyed by the
    path string the program passes to [open] and [os.listdir]; two spellings
    of one path, links and permissions are not modelled. *)

From Stdlib Require Import Ascii String ZArith Lia.
From stdpp Require Import gmap strings list.



(** ** Python strings *)

(** The line feed, Python's ["\n"]. *)
Definition nl : string := String "010"%char "".

(** The double quote, kept apart so that no literal has to escape it. *)
Definition dq : string := String "034"%char "".

(** [s.startswith(p)]. *)
Fixpoint startswith (s p : string) {struct p} : bool :=
  match p with
  | "" => true
  | String a p' =>
      match s with
      | "" => false
      | String b s' => Ascii.eqb a b && startswith s' p'
      end
  end.

(** [c.isupper()] for one character: the cased upper-case letters of
    Latin-1 are A..Z, U+00C0..U+00D6 and U+00D8..U+00DE. *)
Definition isupper_char (c : ascii) : bool :=
  let n := N_of_ascii c in
  ((65 <=? n) && (n <=? 90) || (192 <=? n) && (n <=? 222) && negb (n =? 215))%N.

(** Each of them has its lower-case partner 32 code points further on. *)
Definition lower_char (c : ascii) : ascii :=
  if isupper_char c then ascii_of_N (N_of_ascii c + 32) else c.

(** [s.lower()]. *)
Fixpoint lower (s : string) : string :=
  match s with
  | "" => ""
  | String c s' => String (lower_char c) (lower s')
  end.

(** [new.join(s)] for a string [s]: the replacement between its characters. *)
Fixpoint interleave (new s : string) : string :=
  match s with
  | "" => new
  | String c s' => new +:+ String c (interleave new s')
  end.

(** The scan of [str.replace] for a non-empty [old], left to right: at a match
    the replacement is emitted and the matched characters are passed over
    ([skip] counts those still to pass), so matches do not overlap and
    emitted text is never scanned. *)
Fixpoint replace_from (old new : string) (skip : nat) (s : string) : string :=
  match s with
  | "" => ""
  | String c s' =>
      match skip with
      | S k => replace_from old new k s'
      | O =>
          if startswith s old
          then new +:+ replace_from old new (String.length old - 1) s'
          else String c (replace_from old new 0 s')
      end
  end.

(** [s.replace(old, new)]; an empty [old] matches before every character
    and at the end. *)
Definition replace (s old new : string) : string :=
  match old with
  | "" => interleave new s
  | _ => replace_from old new 0 s
  end.

(** [sep.join(pieces)]. *)
Fixpoint join (sep : string) (pieces : list string) : string :=
  match pieces with
  | [] => ""
  | [p] => p
  | p :: ps => p +:+ sep +:+ join sep ps
  end.

(** The number of positions of [s] at which [p] starts. *)
Fixpoint occurrences (p s : string) : nat :=
  match s with
  | "" => if startswith "" p then 1 else 0
  | String _ s' => (if startswith s p then 1 else 0) + occurrences p s'
  end.

(** [string_map f s]: [f] applied to every character. *)
Fixpoint string_map (f : ascii → ascii) (s : string) : string :=
  match s with
  | "" => ""
  | String c s' => String (f c) (string_map f s')
  end.

(** The characters of a string. *)
Fixpoint chars (s : string) : list ascii :=
  match s with
  | "" => []
  | String c s' => c :: chars s'
  end.

(** The first character of the pattern does not come back in it: then no
    match can begin inside a match or run over the start of one. *)
Definition first_char_unique (p : string) : bool :=
  match p with
  | "" => false
  | String h tl => forallb (λ c, negb (Ascii.eqb h c)) (chars tl)
  end.

(** [s[n:]]. *)
Fixpoint string_drop (n : nat) (s : string) : string :=
  match n, s with
  | S k, String _ s' => string_drop k s'
  | _, _ => s
  end.

(** [a.endswith("/")]. *)
Fixpoint ends_with_sep (a : string) : bool :=
  match a with
  | "" => false
  | String c "" => Ascii.eqb c "/"
  | String _ a' => ends_with_sep a'
  end.

(** [os.path.join(a, b)] of [posixpath], for two components. *)
Definition path_join (a b : string) : string :=
  if startswith b "/" then b
  else if String.eqb a "" || ends_with_sep a then a +:+ b
  else a +:+ "/" +:+ b.

(** ** Python values, as [json.load] builds them *)

#[warnings="-register-all"]
Inductive pyval : Type :=
  | PyNone
  | PyBool (b : bool)
  | PyInt (n : Z)
  | PyFloat (literal : string)
  | PyStr (s : string)
  | PyList (items : list pyval)
  | PyDict (members : list (string * pyval)).

(** The exceptions the script can raise; none is caught.  Two of them stand
    for every exception of a library call that the model does not tell
    apart: [ReadError] for what [open(path, 'r')] and [read()] raise (an
    [OSError] for a path that cannot be opened, a [UnicodeDecodeError] for
    bytes that are no text), [LoadError] for what [json.load] raises on a
    text it does not decode (its [JSONDecodeError], and the [ValueError] and
    [RecursionError] it raises on some texts).  [OSError] is the error of
    [os.listdir] and of [open(path, 'w')]. *)
Inductive exn : Type :=
  | ReadError (path : string)
  | OSError (path : string)
  | LoadError
  | TypeError
  | KeyError (key : string)
  | AttributeError.

(** [d.get(key)] on the members of a dict, whose keys are distinct. *)
Fixpoint dict_get (members : list (string * pyval)) (key : string) : option pyval :=
  match members with
  | [] => None
  | (k, v) :: rest => if String.eqb k key then Some v else dict_get rest key
  end.

(** [d[key] = v]: a present key keeps its place, a new one goes last. *)
Fixpoint dict_set (members : list (string * pyval)) (key : string) (v : pyval)
  : list (string * pyval) :=
  match members with
  | [] => [(key, v)]
  | (k, w) :: rest =>
      if String.eqb k key then (k, v) :: rest else (k, w) :: dict_set rest key v
  end.

(** ** The file system and the effects of the script *)

Record fs : Type := Fs {
  files : gmap string string;
  listings : gmap string (list string)
}.

(** A computation reads and writes the file system and ends in a value or in
    an exception; the state at the exception is kept. *)
Definition io (A : Type) : Type := fs → (exn + A) * fs.

Definition io_ret {A} (a : A) : io A := λ σ, (inr a, σ).

Definition raise {A} (e : exn) : io A := λ σ, (inl e, σ).

Definition io_bind {A B} (m : io A) (k : A → io B) : io B :=
  λ σ, match m σ with
       | (inl e, σ') => (inl e, σ')
       | (inr a, σ') => k a σ'
       end.

Notation "'let*' x := m 'in' k" := (io_bind m (λ x, k))
  (at level 10, x name, m at level 100, k at level 200,
   format "'[v' 'let*'  x  :=  m  'in' '/' k ']'").

(** A computation that leaves the file system as it found it. *)
Definition readonly {A} (m : io A) : Prop := ∀ σ, (m σ).2 = σ.

(** A computation whose outcome does not depend on the file system. *)
Definition stateless {A} (m : io A) : Prop := ∃ r, ∀ σ, m σ = (r, σ).

(** The same outcome from two file systems. *)
Definition same_outcome {A} (σ1 σ2 : fs) (m : io A) : Prop := (m σ1).1 = (m σ2).1.

(** An exception from a file system. *)
Definition fails {A} (σ : fs) (m : io A) : Prop := ∃ e, (m σ).1 = inl e.

(** [open(path, 'r')] followed by [file.read()].  The map [files] holds,
    for each path that can be opened and read, the text as [read()] returns
    it: decoded, with its line ends already translated to line feeds. *)
Definition read_text (path : string) : io string :=
  λ σ, match files σ !! path with
       | Some text => (inr text, σ)
       | None => (inl (ReadError path), σ)
       end.

(** [os.listdir(dir)]: the names in the order the system lists them. *)
Definition listdir (dir : string) : io (list string) :=
  λ σ, match listings σ !! dir with
       | Some names => (inr names, σ)
       | None => (inl (OSError dir), σ)
       end.

(** [open(os.path.join(dir, name), 'w')]: the directory must exist; the file
    is created or truncated, and a new name joins the listing (at its end:
    where a system lists it is not specified, and nothing below rests on it).
    The file systems of the model grant the write: a directory in the place
    of the output file and a refused permission, on which the real call
    raises, are not modelled. *)
Definition open_w (dir name : string) : io string :=
  λ σ, let path := path_join dir name in
       match listings σ !! dir with
       | None => (inl (OSError path), σ)
       | Some names =>
           (inr path,
            {| files := <[path := ""]> (files σ);
               listings := if bool_decide (name ∈ names) then listings σ
                           else <[dir := names ++ [name]]> (listings σ) |})
       end.

(** [file.write(text)] on the file opened at [path].  In the model the
    write goes through: every text of the model can be encoded, and a device
    that fails after the file was truncated is not modelled, so nothing
    below speaks of the file system after an exception of the writer. *)
Definition file_write (path text : string) : io unit :=
  λ σ, (inr (),
        {| files := <[path := default "" (files σ !! path) +:+ text]> (files σ);
           listings := listings σ |}).

(** [for entry in v]: the values a [for] loop draws from [v]. *)
Definition iterate (v : pyval) : io (list pyval) :=
  match v with
  | PyList items => io_ret items
  | PyDict members => io_ret (PyStr <$> members.*1)
  | PyStr s => io_ret ((λ c, PyStr (String c "")) <$> chars s)
  | _ => raise TypeError
  end.

(** [v[key]] for a string key. *)
Definition getitem (v : pyval) (key : string) : io pyval :=
  match v with
  | PyDict members =>
      match dict_get members key with
      | Some w => io_ret w
      | None => raise (KeyError key)
      end
  | _ => raise TypeError
  end.

(** [v.replace(old, new)]: only a [str] has the method. *)
Definition method_replace (v : pyval) (old new : string) : io string :=
  match v with
  | PyStr s => io_ret (replace s old new)
  | _ => raise AttributeError
  end.

(** ** The script *)

Definition manifests_dir : string := "../../../protos/manifests/".

Definition sql_template_path : string :=
  "./configure_timeseries_maintenance_template/configure_timeseries_maintenance.sql".

Definition output_dir : string := "./".

Definition output_name : string := "V4__configure_timeseries_maintenance.sql".

Definition header_line : string :=
  "-- Generated SQL code for configuring timeseries maintenance".

(** The initial [output_code]: the header line and an empty line. *)
Definition header : string := header_line +:+ nl +:+ nl.

Definition token : string := "{table_name}".

Section Generator.

(** [json.load] on the text of a file; [None] stands for every exception
    it raises. *)
Variable json_load : string → option pyval.

Definition load_json (text : string) : io pyval :=
  match json_load text with
  | Some v => io_ret v
  | None => raise LoadError
  end.

(** The inner loop: [for entry in manifest_json]. *)
Fixpoint for_entry (entries : list pyval) (table_names : list string)
  : io (list string) :=
  match entries with
  | [] => io_ret table_names
  | entry :: rest =>
      let* name := getitem entry "ProtoDefName" in
      let* replaced := method_replace name "." "_" in
      let table_name := lower replaced in
      for_entry rest (table_names ++ [table_name])
  end.

(** The outer loop: [for file_name in os.listdir(manifests_dir)]. *)
Fixpoint for_file_name (file_names : list string) (table_names : list string)
  : io (list string) :=
  match file_names with
  | [] => io_ret table_names
  | file_name :: rest =>
      let* text := read_text (path_join manifests_dir file_name) in
      let* manifest_json := load_json text in
      let* entries := iterate manifest_json in
      let* table_names := for_entry entries table_names in
      for_file_name rest table_names
  end.

(** The body of the outer loop for one file, followed by [k]. *)
Definition file_step (f : string) (table_names : list string)
  (k : list string → io (list string)) : io (list string) :=
  let* text := read_text (path_join manifests_dir f) in
  let* manifest_json := load_json text in
  let* entries := iterate manifest_json in
  let* table_names := for_entry entries table_names in
  k table_names.

(** The last loop: [for table_name in table_names]. *)
Fixpoint for_table_name (sql_template : string) (table_names : list string)
  (output_code : string) : string :=
  match table_names with
  | [] => output_code
  | table_name :: rest =>
      for_table_name sql_template rest
        (output_code +:+ replace sql_template "{table_name}" table_name +:+ nl)
  end.

(** Everything before the final [open]: the text to write. *)
Definition build_output_code : io string :=
  let output_code := header in
  let* sql_template := read_text sql_template_path in
  let* file_names := listdir manifests_dir in
  let* table_names := for_file_name file_names [] in
  io_ret (for_table_name sql_template table_names output_code).

Definition generate_migration (output_dir : string) : io unit :=
  let* output_code := build_output_code in
  let* file := open_w output_dir output_name in
  file_write file output_code.

(** The call at the end of the module. *)
Definition main : io unit := generate_migration output_dir.

End Generator.

(** ** A decoder for the manifests' JSON

    [json.load] is not code of the script: the theorems take it as the
    parameter [json_load].  To run the script on file texts, this decoder
    reads the fragment of JSON without escapes, fractions and exponents
    (on other input it answers [None]). *)

Definition json_space (c : ascii) : bool :=
  match c with
  | " " | "009" | "010" | "013" => true
  | _ => false
  end%char.

Fixpoint skip_space (s : string) : string :=
  match s with
  | "" => ""
  | String c s' => if json_space c then skip_space s' else s
  end.

(** A string literal after its opening quote. *)
Fixpoint scan_string (s : string) : option (string * string) :=
  match s with
  | "" => None
  | String c s' =>
      if Ascii.eqb c "034" then Some ("", s')
      else if Ascii.eqb c "\" || (N_of_ascii c <? 32)%N then None
      else '(lit, rest) ← scan_string s'; Some (String c lit, rest)
  end.

Fixpoint scan_digits (s : string) (acc : Z) : Z * string :=
  match s with
  | "" => (acc, "")
  | String c s' =>
      match Ascii.is_nat c with
      | Some d => scan_digits s' (10 * acc + Z.of_nat d)%Z
      | None => (acc, s)
      end
  end.

(** An integer that starts with a digit; a leading zero stands alone. *)
Definition scan_int (s : string) : option (Z * string) :=
  '(n, rest) ← match s with
               | String "0" r => Some (0%Z, r)
               | String c _ =>
                   match Ascii.is_nat c with
                   | Some _ => Some (scan_digits s 0%Z)
                   | None => None
                   end
               | "" => None
               end;
  match rest with
  | String "." _ | String "e" _ | String "E" _ => None
  | _ => Some (n, rest)
  end.

Fixpoint parse_value (fuel : nat) (s : string) : option (pyval * string) :=
  match fuel with
  | 0 => None
  | S fuel =>
      match skip_space s with
      | String "[" r =>
          match skip_space r with
          | String "]" r' => Some (PyList [], r')
          | r' => '(items, rest) ← parse_items fuel r'; Some (PyList items, rest)
          end
      | String "{" r =>
          match skip_space r with
          | String "}" r' => Some (PyDict [], r')
          | r' => '(members, rest) ← parse_members fuel r' []; Some (PyDict members, rest)
          end
      | String "034" r => '(lit, rest) ← scan_string r; Some (PyStr lit, rest)
      | String "-" r => '(n, rest) ← scan_int r; Some (PyInt (- n), rest)
      | s' =>
          if startswith s' "true" then Some (PyBool true, string_drop 4 s')
          else if startswith s' "false" then Some (PyBool false, string_drop 5 s')
          else if startswith s' "null" then Some (PyNone, string_drop 4 s')
          else '(n, rest) ← scan_int s'; Some (PyInt n, rest)
      end
  end
with parse_items (fuel : nat) (s : string) : option (list pyval * string) :=
  match fuel with
  | 0 => None
  | S fuel =>
      '(v, r) ← parse_value fuel s;
      match skip_space r with
      | String "]" r' => Some ([v], r')
      | String "," r' => '(vs, rest) ← parse_items fuel r'; Some (v :: vs, rest)
      | _ => None
      end
  end
with parse_members (fuel : nat) (s : string) (seen : list (string * pyval))
  : option (list (string * pyval) * string) :=
  match fuel with
  | 0 => None
  | S fuel =>
      match skip_space s with
      | String "034" r =>
          '(key, r1) ← scan_string r;
          match skip_space r1 with
          | String ":" r2 =>
              '(v, r3) ← parse_value fuel r2;
              let seen := dict_set seen key v in
              match skip_space r3 with
              | String "}" r' => Some (seen, r')
              | String "," r' => parse_members fuel r' seen
              | _ => None
              end
          | _ => None
          end
      | _ => None
      end
  end.

Definition json_fragment_load (text : string) : option pyval :=
  '(v, rest) ← parse_value (2 * String.length text + 2) text;
  if String.eqb (skip_space rest) "" then Some v else None.

(** A JSON string literal and a manifest record, as file text. *)
Definition quoted (s : string) : string := dq +:+ s +:+ dq.

Definition record_text (proto_def_name : string) : string :=
  "{" +:+ quoted "ProtoDefName" +:+ ":" +:+ quoted proto_def_name +:+ "}".

(** ** What the claims speak of *)

(** The Table Name of a ProtoDefName, by the expression of the script. *)
Definition table_name_of (proto_def_name : string) : string :=
  lower (replace proto_def_name "." "_").

(** The same by the words of the derivation rule: every dot becomes an
    underscore, then every letter its lower case. *)
Definition dot_to_underscore (c : ascii) : ascii :=
  if Ascii.eqb c "." then "_"%char else c.

Definition table_name_rule (proto_def_name : string) : string :=
  string_map lower_char (string_map dot_to_underscore proto_def_name).



(** The expanded block of one Table Name. *)
Definition expand (sql_template table_name : string) : string :=
  replace sql_template token table_name.

(** Blocks laid out as the last loop does: each followed by one line feed. *)
Fixpoint concat_lines (blocks : list string) : string :=
  match blocks with
  | [] => ""
  | b :: bs => b +:+ nl +:+ concat_lines bs
  end.

(** The path of the output file in [dir]. *)
Definition output_path (dir : string) : string := path_join dir output_name.

(** The file system after the writer has run in [dir], listed as [names]. *)
Definition after_write (dir : string) (names : list string) (text : string)
  (σ : fs) : fs :=
  {| files := <[output_path dir := text]> (files σ);
     listings := if bool_decide (output_name ∈ names) then listings σ
                 else <[dir := names ++ [output_name]]> (listings σ) |}.

(** The file system [σ] with [old] as the content of the output file. *)
Definition with_output (dir old : string) (σ : fs) : fs :=
  {| files := <[output_path dir := old]> (files σ); listings := listings σ |}.

(** The ProtoDefName of a record: a dict that binds the key to a [str]. *)
Definition proto_def_name (entry : pyval) : option string :=
  match entry with
  | PyDict members =>
      match dict_get members "ProtoDefName" with
      | Some (PyStr s) => Some s
      | _ => None
      end
  | _ => None
  end.

Fixpoint proto_def_names (items : list pyval) : option (list string) :=
  match items with
  | [] => Some []
  | entry :: rest =>
      s ← proto_def_name entry; ss ← proto_def_names rest; Some (s :: ss)
  end.

(** The records of a well-formed manifest: an array whose every record bears
    a ProtoDefName. *)
Definition manifest_records (v : pyval) : option (list string) :=
  match v with
  | PyList items => proto_def_names items
  | _ => None
  end.

Section Manifests.

Variable json_load : string → option pyval.

(** The records of one manifest file of the directory. *)
Definition file_records (σ : fs) (file_name : string) : option (list string) :=
  text ← files σ !! path_join manifests_dir file_name;
  v ← json_load text;
  manifest_records v.

Fixpoint files_records (σ : fs) (file_names : list string) : option (list string) :=
  match file_names with
  | [] => Some []
  | f :: rest =>
      rs ← file_records σ f; rss ← files_records σ rest; Some (rs ++ rss)
  end.

(** All records of the manifest directory: in listing order, then in array
    order. *)
Definition all_records (σ : fs) : option (list string) :=
  file_names ← listings σ !! manifests_dir; files_records σ file_names.

(** A failure of a stage before the writer. *)
Inductive stage_failure (σ : fs) : Prop :=
  | missing_template :
      files σ !! sql_template_path = None → stage_failure σ
  | missing_manifest_dir :
      listings σ !! manifests_dir = None → stage_failure σ
  | unparseable_manifest file_names f text :
      listings σ !! manifests_dir = Some file_names →
      f ∈ file_names →
      files σ !! path_join manifests_dir f = Some text →
      json_load text = None →
      stage_failure σ
  | record_without_name file_names f text items entry :
      listings σ !! manifests_dir = Some file_names →
      f ∈ file_names →
      files σ !! path_join manifests_dir f = Some text →
      json_load text = Some (PyList items) →
      entry ∈ items →
      proto_def_name entry = None →
      stage_failure σ.

End Manifests.

(** Two file systems with the same template and the same manifests: the
    same listing of the same file contents. *)
Definition same_inputs (σ1 σ2 : fs) : Prop :=
  files σ1 !! sql_template_path = files σ2 !! sql_template_path ∧
  listings σ1 !! manifests_dir = listings σ2 !! manifests_dir ∧
  ∀ file_names f,
    listings σ1 !! manifests_dir = Some file_names →
    f ∈ file_names →
    files σ1 !! path_join manifests_dir f = files σ2 !! path_join manifests_dir f.

(** ** The scenario of the specification *)

Definition scenario_manifest : string :=
  "[" +:+ record_text "a.B" +:+ "," +:+ record_text "C.d" +:+ "]".

Definition scenario_fs (sql_template : string) : fs :=
  {| files := {[ sql_template_path := sql_template;
                 path_join manifests_dir "tables.json" := scenario_manifest ]};
     listings := {[ manifests_dir := ["tables.json"];
                    output_dir := ["configure_timeseries_maintenance_template";
                                   "generate_migration.py"] ]} |}.

(** The output the specification shows: blocks followed by a blank line. *)
Definition scenario_output : string :=
  header_line +:+ nl +:+ nl +:+
  "SELECT 'a_b' AS t;" +:+ nl +:+ nl +:+
  "SELECT 'c_d' AS t;" +:+ nl +:+ nl.

(** A file system with the template and an output of an earlier run, and
    no manifest directory. *)
Definition no_manifests_fs : fs :=
  {| files := {[ sql_template_path := "SELECT '{table_name}' AS t;";
                 output_path output_dir := "-- an earlier output" ]};
     listings := {[ output_dir := ["configure_timeseries_maintenance_template";
                                   "V4__configure_timeseries_maintenance.sql"] ]} |}.

(** A file system whose manifest directory holds one empty array. *)
Definition empty_manifest_fs : fs :=
  {| files := {[ sql_template_path := "SELECT '{table_name}' AS t;";
                 path_join manifests_dir "none.json" := "[ ]" ]};
     listings := {[ manifests_dir := ["none.json"]; output_dir := [] ]} |}.

(** ** What the loops accept *)

(** The records of a manifest value the loops run over without an
    exception: an array of records that bear a ProtoDefName string, and,
    since a [for] loop over an empty dict or an empty [str] has no turn, the
    empty object and the empty string. *)
Definition accepted_records (v : pyval) : option (list string) :=
  match v with
  | PyList items => proto_def_names items
  | PyDict [] | PyStr "" => Some []
  | _ => None
  end.

(** The shapes of a manifest value over which the loop raises [TypeError]:
    what is not iterable, and a dict or [str] with a first element (a key or
    a character, which is a [str] and takes no string index). *)
Definition raises_type_error (v : pyval) : bool :=
  match v with
  | PyList _ | PyDict [] | PyStr "" => false
  | _ => true
  end.

Section AcceptedManifests.

Variable json_load : string → option pyval.

Definition accepted_file_records (σ : fs) (file_name : string)
  : option (list string) :=
  text ← files σ !! path_join manifests_dir file_name;
  v ← json_load text;
  accepted_records v.

Fixpoint accepted_files_records (σ : fs) (file_names : list string)
  : option (list string) :=
  match file_names with
  | [] => Some []
  | f :: rest =>
      rs ← accepted_file_records σ f;
      rss ← accepted_files_records σ rest;
      Some (rs ++ rss)
  end.

End AcceptedManifests.

(** A file system with two manifest files, the second one an empty object. *)
Definition two_manifests_fs : fs :=
  {| files := {[ sql_template_path := "SELECT '{table_name}' AS t;";
                 path_join manifests_dir "a.json" := scenario_manifest;
                 path_join manifests_dir "b.json" := "{}" ]};
     listings := {[ manifests_dir := ["a.json"; "b.json"]; output_dir := [] ]} |}.

(** A file system whose second manifest is an object with a member. *)
Definition object_manifest_fs : fs :=
  {| files := {[ sql_template_path := "SELECT '{table_name}' AS t;";
                 path_join manifests_dir "a.json" := scenario_manifest;
                 path_join manifests_dir "b.json" := record_text "a.B" ]};
     listings := {[ manifests_dir := ["a.json"; "b.json"; "c.json"];
                    output_dir := [] ]} |}.

(** ** Names beyond Latin-1

    Line 27 on a ProtoDefName that holds characters from U+0100 on.  A text
    is here the list of its code points.  Below U+0100 the case of a
    character is the one of the model above; beyond, the model holds the
    rows of the Unicode case table listed in [case_rows] and no others, and
    answers [None] on a code point it has no row for. *)












(** * Properties *)

(** ** Strings *)

Lemma append_cons (c : ascii) (s t : string) : String c s +:+ t = String c (s +:+ t).
Proof. reflexivity. Qed.

Lemma append_nil_l (s : string) : "" +:+ s = s.
Proof. reflexivity. Qed.

Lemma append_nil_r (s : string) : s +:+ "" = s.
Proof. induction s as [|c s IH]; [done|]. by rewrite append_cons, IH. Qed.

Lemma append_assoc (s t u : string) : (s +:+ t) +:+ u = s +:+ t +:+ u.
Proof. induction s as [|c s IH]; [done|]. by rewrite !append_cons, IH. Qed.

Lemma append_length (s t : string) :
  String.length (s +:+ t) = String.length s + String.length t.
Proof. induction s as [|c s IH]; [done|]. rewrite append_cons. simpl. by rewrite IH. Qed.

Example replace_overlap : replace "aaa" "aa" "b" = "ba".
Proof. reflexivity. Qed.

Example replace_empty_old : replace "a.b" "" "-" = "-a-.-b-".
Proof. reflexivity. Qed.

Example lower_mixed : lower "Foo.BAR_z9" = "foo.bar_z9".
Proof. reflexivity. Qed.

Lemma startswith_nil (s : string) : startswith s "" = true.
Proof. by destruct s. Qed.

Lemma startswith_cons (b a : ascii) (s p : string) :
  startswith (String b s) (String a p) = Ascii.eqb a b && startswith s p.
Proof. reflexivity. Qed.

Lemma startswith_app (p r : string) : startswith (p +:+ r) p = true.
Proof.
  induction p as [|a p IH]; [apply startswith_nil|].
  by rewrite append_cons, startswith_cons, Ascii.eqb_refl, IH.
Qed.

Lemma startswith_app_l (s r p : string) :
  startswith s p = true → startswith (s +:+ r) p = true.
Proof.
  revert s. induction p as [|a p IH]; intros [|b s]; try done.
  rewrite append_cons, !startswith_cons. intros [-> ?]%andb_true_iff.
  by rewrite IH.
Qed.

Lemma startswith_split (s p : string) :
  startswith s p = true → s = p +:+ string_drop (String.length p) s.
Proof.
  revert s. induction p as [|a p IH]; intros [|b s]; try done.
  rewrite startswith_cons. intros [Hab ?]%andb_true_iff.
  apply Ascii.eqb_eq in Hab as ->. rewrite append_cons. simpl. f_equal. by apply IH.
Qed.

Lemma string_drop_app (p r : string) : string_drop (String.length p) (p +:+ r) = r.
Proof. induction p as [|a p IH]; [by destruct r|]. by rewrite append_cons. Qed.

(** *** The scan of [replace] *)

Lemma replace_from_cons (old new : string) (c : ascii) (s : string) :
  replace_from old new 0 (String c s) =
  if startswith (String c s) old
  then new +:+ replace_from old new (String.length old - 1) s
  else String c (replace_from old new 0 s).
Proof. reflexivity. Qed.

Lemma replace_from_skip (old new : string) (k : nat) (s : string) :
  replace_from old new k s = replace_from old new 0 (string_drop k s).
Proof.
  revert k. induction s as [|c s IH]; intros [|k]; try done.
  simpl. apply IH.
Qed.

(** At a match the replacement is emitted and the scan goes on after it. *)
Lemma replace_from_match (old new rest : string) :
  old ≠ "" →
  replace_from old new 0 (old +:+ rest) = new +:+ replace_from old new 0 rest.
Proof.
  destruct old as [|a o]; [done|]. intros _.
  rewrite append_cons, replace_from_cons, <- append_cons, startswith_app.
  rewrite replace_from_skip.
  replace (String.length (String a o) - 1) with (String.length o) by (simpl; lia).
  by rewrite string_drop_app.
Qed.

Lemma occurrences_cons (p : string) (c : ascii) (s : string) :
  occurrences p (String c s) =
  (if startswith (String c s) p then 1 else 0) + occurrences p s.
Proof. reflexivity. Qed.

Lemma occurrences_app_r (p a b : string) :
  occurrences p b ≤ occurrences p (a +:+ b).
Proof.
  induction a as [|c a IH]; [done|]. rewrite append_cons, occurrences_cons. lia.
Qed.

Lemma occurrences_app_l (p a b : string) :
  p ≠ "" → occurrences p a ≤ occurrences p (a +:+ b).
Proof.
  intros Hp. induction a as [|c a IH].
  - destruct p; [done|]. simpl. lia.
  - rewrite append_cons, !occurrences_cons.
    destruct (startswith (String c a) p) eqn:Hs.
    + rewrite <- append_cons, (startswith_app_l _ _ _ Hs). lia.
    + lia.
Qed.

Lemma occurrences_here (p r : string) : p ≠ "" → 1 ≤ occurrences p (p +:+ r).
Proof.
  destruct p as [|a p]; [done|]. intros _.
  rewrite append_cons, occurrences_cons, <- append_cons, startswith_app. lia.
Qed.

(** Text without a match is copied. *)
Lemma replace_from_none (old new s : string) :
  occurrences old s = 0 → replace_from old new 0 s = s.
Proof.
  induction s as [|c s IH]; [done|].
  rewrite occurrences_cons, replace_from_cons.
  destruct (startswith (String c s) old); [lia|].
  intros ?. f_equal. apply IH. lia.
Qed.

(** One match only: the text before and after it is copied. *)
Lemma replace_from_once (old new pre post : string) :
  old ≠ "" →
  occurrences old (pre +:+ old +:+ post) = 1 →
  replace_from old new 0 (pre +:+ old +:+ post) = pre +:+ new +:+ post.
Proof.
  intros Hold. induction pre as [|c pre IH].
  - rewrite !append_nil_l. intros Hocc.
    rewrite replace_from_match by done. f_equal.
    apply replace_from_none.
    destruct old as [|a o]; [done|].
    rewrite append_cons, occurrences_cons, <- append_cons, startswith_app in Hocc.
    pose proof (occurrences_app_r (String a o) o post). lia.
  - rewrite !append_cons, occurrences_cons, replace_from_cons.
    pose proof (occurrences_app_r old pre (old +:+ post)).
    pose proof (occurrences_here old post Hold).
    destruct (startswith _ old); [lia|].
    intros ?. f_equal. apply IH. lia.
Qed.

Lemma startswith_before (tl : string) (h : ascii) (q r : string) :
  forallb (λ c, negb (Ascii.eqb h c)) (chars tl) = true →
  startswith (q +:+ String h r) tl = true → startswith q tl = true.
Proof.
  revert q. induction tl as [|x xs IH]; intros q; [by rewrite startswith_nil|].
  intros Hu. simpl in Hu. apply andb_true_iff in Hu as [Hx Hxs].
  destruct q as [|y q].
  - rewrite append_nil_l, startswith_cons. intros [Hxh _]%andb_true_iff.
    apply Ascii.eqb_eq in Hxh as ->. by rewrite Ascii.eqb_refl in Hx.
  - rewrite append_cons, !startswith_cons. intros [-> ?]%andb_true_iff. simpl. eauto.
Qed.

Lemma startswith_no_straddle (old : string) (c : ascii) (p r : string) :
  first_char_unique old = true →
  startswith (String c p +:+ old +:+ r) old = true →
  startswith (String c p) old = true.
Proof.
  destruct old as [|h tl]; [done|]. intros Hu. simpl in Hu.
  rewrite !append_cons, !startswith_cons. intros [-> Hs]%andb_true_iff. simpl.
  eapply startswith_before; eauto.
Qed.

(** Before the first match the text is copied, the match is replaced, and
    the scan resumes behind it. *)
Lemma replace_from_first (old new p rest : string) :
  first_char_unique old = true →
  occurrences old p = 0 →
  replace_from old new 0 (p +:+ old +:+ rest) =
  p +:+ new +:+ replace_from old new 0 rest.
Proof.
  intros Hu. assert (old ≠ "") as Hold by (by destruct old).
  induction p as [|c p IH].
  - intros _. rewrite !append_nil_l. by apply replace_from_match.
  - rewrite occurrences_cons. intros Hocc.
    rewrite (append_cons c p (new +:+ _)), <- IH by lia.
    rewrite (append_cons c p), replace_from_cons, <- append_cons.
    destruct (startswith (String c p +:+ _) old) eqn:Hs; [|done].
    apply startswith_no_straddle in Hs; [|done]. rewrite Hs in Hocc. lia.
Qed.

(** Every match between match-free pieces is replaced by the same text. *)
Lemma replace_from_join (old new : string) (pieces : list string) :
  first_char_unique old = true →
  Forall (λ p, occurrences old p = 0) pieces →
  replace_from old new 0 (join old pieces) = join new pieces.
Proof.
  intros Hu. induction 1 as [|p ps Hp Hps IH]; [done|].
  destruct ps as [|q ps]; [by apply replace_from_none|].
  change (join old (p :: q :: ps)) with (p +:+ old +:+ join old (q :: ps)).
  change (join new (p :: q :: ps)) with (p +:+ new +:+ join new (q :: ps)).
  by rewrite replace_from_first, IH.
Qed.

(** The text up to the first match holds no match. *)
Lemma first_occurrence (old s : string) :
  old ≠ "" →
  1 ≤ occurrences old s →
  ∃ pre post, s = pre +:+ old +:+ post ∧ occurrences old pre = 0.
Proof.
  intros Hold. induction s as [|c s IH].
  - destruct old; [done|]. simpl. lia.
  - rewrite occurrences_cons. destruct (startswith (String c s) old) eqn:Hs.
    + intros _. exists "", (string_drop (String.length old) (String c s)).
      split; [by apply startswith_split|]. by destruct old.
    + intros Hocc. destruct IH as (pre & post & -> & Hpre); [lia|].
      exists (String c pre), post. split; [done|].
      rewrite occurrences_cons, Hpre.
      destruct (startswith (String c pre) old) eqn:Hs'; [|done].
      apply (startswith_app_l _ (old +:+ post)) in Hs'.
      rewrite append_cons in Hs'. congruence.
Qed.

(** *** The derivation of a Table Name *)

Lemma replace_dot (s : string) : replace s "." "_" = string_map dot_to_underscore s.
Proof.
  unfold replace. induction s as [|c s IH]; [done|].
  rewrite replace_from_cons, startswith_cons. simpl string_map.
  unfold dot_to_underscore at 1. rewrite Ascii.eqb_sym.
  destruct (Ascii.eqb c ".") eqn:Hc; simpl.
  - rewrite replace_from_skip. simpl string_drop. by rewrite IH.
  - by rewrite IH.
Qed.

Lemma lower_string_map (s : string) : lower s = string_map lower_char s.
Proof. induction s as [|c s IH]; [done|]. simpl. by rewrite IH. Qed.

Lemma table_name_of_rule (s : string) : table_name_of s = table_name_rule s.
Proof. unfold table_name_of, table_name_rule. by rewrite replace_dot, lower_string_map. Qed.



Lemma expand_replace_from (sql_template table_name : string) :
  expand sql_template table_name = replace_from token table_name 0 sql_template.
Proof. reflexivity. Qed.

Lemma token_first_char_unique : first_char_unique token = true.
Proof. reflexivity. Qed.

Lemma token_nonempty : token ≠ "".
Proof. done. Qed.

(** ** Effects *)

Create HintDb io discriminated.

Lemma stateless_readonly {A} (m : io A) : stateless m → readonly m.
Proof. intros [r Hr] σ. by rewrite Hr. Qed.

Lemma stateless_same {A} (σ1 σ2 : fs) (m : io A) : stateless m → same_outcome σ1 σ2 m.
Proof. intros [r Hr]. unfold same_outcome. by rewrite !Hr. Qed.

Lemma stateless_ret {A} (a : A) : stateless (io_ret a).
Proof. by exists (inr a). Qed.

Lemma stateless_raise {A} (e : exn) : stateless (raise (A:=A) e).
Proof. by exists (inl e). Qed.

Lemma stateless_bind {A B} (m : io A) (k : A → io B) :
  stateless m → (∀ a, stateless (k a)) → stateless (io_bind m k).
Proof.
  intros [[e|a] Hr] Hk.
  - exists (inl e). intros σ. unfold io_bind. by rewrite Hr.
  - destruct (Hk a) as [r' Hr']. exists r'. intros σ. unfold io_bind. by rewrite Hr.
Qed.

Lemma readonly_bind {A B} (m : io A) (k : A → io B) :
  readonly m → (∀ a, readonly (k a)) → readonly (io_bind m k).
Proof.
  intros Hm Hk σ. unfold io_bind. specialize (Hm σ).
  destruct (m σ) as [[e|a] σ']; simpl in *; subst; [done|apply Hk].
Qed.

Lemma same_outcome_bind {A B} (σ1 σ2 : fs) (m : io A) (k : A → io B) :
  readonly m → same_outcome σ1 σ2 m → (∀ a, same_outcome σ1 σ2 (k a)) →
  same_outcome σ1 σ2 (io_bind m k).
Proof.
  unfold same_outcome, io_bind. intros Hm Hs Hk.
  pose proof (Hm σ1) as H1. pose proof (Hm σ2) as H2.
  destruct (m σ1) as [r1 σ1'], (m σ2) as [r2 σ2']. simpl in *. subst.
  destruct r2; [done|apply Hk].
Qed.

Lemma fails_bind_now {A B} (σ : fs) (m : io A) (k : A → io B) :
  fails σ m → fails σ (io_bind m k).
Proof.
  intros [e He]. exists e. unfold io_bind.
  destruct (m σ) as [r σ']. simpl in He. by subst.
Qed.

Lemma fails_bind_later {A B} (σ : fs) (m : io A) (k : A → io B) :
  readonly m → (∀ a, (m σ).1 = inr a → fails σ (k a)) → fails σ (io_bind m k).
Proof.
  intros Hm Hk. unfold fails, io_bind in *. specialize (Hm σ).
  destruct (m σ) as [[e|a] σ']; simpl in *; subst; eauto.
Qed.

Lemma io_bind_inr {A B} (m : io A) (k : A → io B) (σ σ' : fs) (a : A) :
  m σ = (inr a, σ') → io_bind m k σ = k a σ'.
Proof. unfold io_bind. by intros ->. Qed.

Lemma io_bind_inl {A B} (m : io A) (k : A → io B) (σ σ' : fs) (e : exn) :
  m σ = (inl e, σ') → io_bind m k σ = (inl e, σ').
Proof. unfold io_bind. by intros ->. Qed.

Lemma stateless_iterate (v : pyval) : stateless (iterate v).
Proof. destruct v; apply stateless_ret || apply stateless_raise. Qed.

Lemma stateless_getitem (v : pyval) (key : string) : stateless (getitem v key).
Proof.
  destruct v; simpl; try apply stateless_raise.
  destruct (dict_get _ _); apply stateless_ret || apply stateless_raise.
Qed.

Lemma stateless_method_replace (v : pyval) (old new : string) :
  stateless (method_replace v old new).
Proof. destruct v; apply stateless_ret || apply stateless_raise. Qed.

Lemma readonly_read_text (path : string) : readonly (read_text path).
Proof. intros σ. unfold read_text. by destruct (files σ !! path). Qed.

Lemma readonly_listdir (dir : string) : readonly (listdir dir).
Proof. intros σ. unfold listdir. by destruct (listings σ !! dir). Qed.

#[global] Hint Resolve stateless_ret stateless_raise stateless_iterate
  stateless_getitem stateless_method_replace : io.
#[global] Hint Resolve stateless_readonly readonly_read_text readonly_listdir : io.

Section GeneratorFacts.

Variable json_load : string → option pyval.

Lemma stateless_load_json (text : string) : stateless (load_json json_load text).
Proof. unfold load_json. destruct (json_load text); auto with io. Qed.

Lemma stateless_for_entry (entries : list pyval) (table_names : list string) :
  stateless (for_entry entries table_names).
Proof.
  revert table_names. induction entries as [|entry rest IH]; intros acc; simpl.
  - auto with io.
  - repeat (apply stateless_bind; [auto with io|intros ?]). apply IH.
Qed.

Lemma readonly_for_file_name (file_names table_names : list string) :
  readonly (for_file_name json_load file_names table_names).
Proof.
  revert table_names. induction file_names as [|f rest IH]; intros acc; simpl.
  - auto with io.
  - pose proof stateless_load_json. pose proof stateless_for_entry.
    repeat (apply readonly_bind; [auto with io|intros ?]). apply IH.
Qed.

Lemma readonly_build_output_code : readonly (build_output_code json_load).
Proof.
  pose proof readonly_for_file_name. unfold build_output_code.
  repeat (apply readonly_bind; [auto with io|intros ?]). auto with io.
Qed.

(** The last loop appends one line per Table Name. *)
Lemma for_table_name_eq (sql_template : string) (table_names : list string)
  (output_code : string) :
  for_table_name sql_template table_names output_code =
  output_code +:+ concat_lines (expand sql_template <$> table_names).
Proof.
  revert output_code. induction table_names as [|t rest IH]; intros out; simpl.
  - by rewrite append_nil_r.
  - rewrite IH. by rewrite !append_assoc.
Qed.

(** The text to write, by cases on what the script reads. *)
Lemma build_output_code_eq (σ : fs) :
  (build_output_code json_load σ).1 =
  match files σ !! sql_template_path with
  | None => inl (ReadError sql_template_path)
  | Some sql_template =>
      match listings σ !! manifests_dir with
      | None => inl (OSError manifests_dir)
      | Some file_names =>
          match (for_file_name json_load file_names [] σ).1 with
          | inl e => inl e
          | inr table_names =>
              inr (header +:+ concat_lines (expand sql_template <$> table_names))
          end
      end
  end.
Proof.
  unfold build_output_code, io_bind, read_text, listdir.
  destruct (files σ !! sql_template_path) as [tpl|]; [|done].
  destruct (listings σ !! manifests_dir) as [file_names|]; [|done].
  destruct (for_file_name _ _ _ σ) as [[e|names] σ']; [done|].
  simpl. by rewrite for_table_name_eq.
Qed.

(** A run, by cases: an exception before the writer leaves the file system
    alone; so does a missing output directory; otherwise the text is written. *)
Lemma generate_migration_eq (dir : string) (σ : fs) :
  generate_migration json_load dir σ =
  match (build_output_code json_load σ).1 with
  | inl e => (inl e, σ)
  | inr output_code =>
      match listings σ !! dir with
      | None => (inl (OSError (output_path dir)), σ)
      | Some names => (inr (), after_write dir names output_code σ)
      end
  end.
Proof.
  unfold generate_migration, io_bind.
  pose proof (readonly_build_output_code σ) as Hro.
  destruct (build_output_code json_load σ) as [[e|code] σ']; simpl in *; subst; [done|].
  unfold open_w. destruct (listings σ !! dir) as [names|]; [|done].
  unfold file_write, after_write, output_path. simpl.
  by rewrite lookup_insert_eq, insert_insert_eq.
Qed.

End GeneratorFacts.

(** ** The scan of the manifests *)

Section ScanFacts.

Variable json_load : string → option pyval.

Lemma for_entry_records (entries : list pyval) (names table_names : list string)
  (σ : fs) :
  proto_def_names entries = Some names →
  for_entry entries table_names σ =
  (inr (table_names ++ (table_name_of <$> names)), σ).
Proof.
  revert names table_names.
  induction entries as [|entry rest IH]; intros names acc Hn; simplify_eq/=.
  - by rewrite app_nil_r.
  - destruct (proto_def_name entry) as [s|] eqn:Hs; simplify_eq/=.
    destruct (proto_def_names rest) as [ss|] eqn:Hss; simplify_eq/=.
    destruct entry as [| | | | |?|members]; simplify_eq/=.
    destruct (dict_get members "ProtoDefName") as [[| | | |s'| |]|] eqn:Hd;
      simplify_eq/=.
    unfold io_bind. simpl.
    rewrite (IH ss) by done. by rewrite <- app_assoc.
Qed.

Lemma for_file_name_records (σ : fs) (file_names records table_names : list string) :
  files_records json_load σ file_names = Some records →
  for_file_name json_load file_names table_names σ =
  (inr (table_names ++ (table_name_of <$> records)), σ).
Proof.
  revert records table_names.
  induction file_names as [|f rest IH]; intros records acc Hr; simplify_eq/=.
  - by rewrite app_nil_r.
  - destruct (file_records json_load σ f) as [rs|] eqn:Hf; simplify_eq/=.
    destruct (files_records json_load σ rest) as [rss|] eqn:Hrest; simplify_eq/=.
    unfold file_records in Hf.
    destruct (files σ !! path_join manifests_dir f) as [text|] eqn:Ht; simplify_eq/=.
    destruct (json_load text) as [v|] eqn:Hv; simplify_eq/=.
    destruct v as [| | | | |items|]; simplify_eq/=.
    unfold io_bind, read_text, load_json. rewrite Ht, Hv. simpl.
    rewrite (for_entry_records _ _ _ _ Hf).
    rewrite (IH rss) by done. by rewrite fmap_app, <- app_assoc.
Qed.

(** With well-formed manifests the text is the header and one line-ended
    block per record. *)
Lemma build_output_code_records (σ : fs) (sql_template : string)
  (records : list string) :
  files σ !! sql_template_path = Some sql_template →
  all_records json_load σ = Some records →
  (build_output_code json_load σ).1 =
  inr (header +:+ concat_lines (expand sql_template <$> (table_name_of <$> records))).
Proof.
  intros Ht Hr. rewrite build_output_code_eq, Ht. unfold all_records in Hr.
  destruct (listings σ !! manifests_dir) as [file_names|]; simplify_eq/=.
  by rewrite (for_file_name_records _ _ _ _ Hr).
Qed.



End ScanFacts.

(** ** Failures before the writer *)

Section FailureFacts.

Variable json_load : string → option pyval.

Lemma for_entry_fails (entries : list pyval) (entry : pyval)
  (table_names : list string) (σ : fs) :
  entry ∈ entries → proto_def_name entry = None →
  fails σ (for_entry entries table_names).
Proof.
  intros Hin Hnone. revert table_names.
  induction Hin as [entry rest|entry other rest Hin IH]; intros acc; simpl.
  - destruct entry as [| | | | | |members]; try by eexists.
    simpl in Hnone.
    destruct (dict_get members "ProtoDefName") as [v|] eqn:Hd;
      [|eexists; unfold io_bind; simpl; by rewrite Hd].
    destruct v; simplify_eq; eexists; unfold io_bind; simpl; by rewrite Hd.
  - apply fails_bind_later; [auto with io|intros v _].
    apply fails_bind_later; [auto with io|intros s _]. by apply IH.
Qed.

Lemma for_file_name_fails (σ : fs) (file_names : list string) (f : string)
  (table_names : list string) :
  f ∈ file_names →
  (∀ acc k, fails σ (file_step json_load f acc k)) →
  fails σ (for_file_name json_load file_names table_names).
Proof.
  intros Hin Hf. revert table_names.
  induction Hin as [f rest|f other rest Hin IH]; intros acc.
  - apply (Hf acc (for_file_name json_load rest)).
  - simpl. pose proof (stateless_load_json json_load).
    pose proof stateless_for_entry.
    repeat (apply fails_bind_later; [auto with io|intros ? _]). by apply IH.
Qed.

Lemma file_step_unparseable (σ : fs) (f text : string) :
  files σ !! path_join manifests_dir f = Some text →
  json_load text = None →
  ∀ acc k, fails σ (file_step json_load f acc k).
Proof.
  intros Ht Hv acc k. exists LoadError.
  unfold file_step, io_bind, read_text, load_json. by rewrite Ht, Hv.
Qed.

Lemma file_step_record_without_name (σ : fs) (f text : string)
  (items : list pyval) (entry : pyval) :
  files σ !! path_join manifests_dir f = Some text →
  json_load text = Some (PyList items) →
  entry ∈ items → proto_def_name entry = None →
  ∀ acc k, fails σ (file_step json_load f acc k).
Proof.
  intros Ht Hv Hin Hnone acc k.
  destruct (for_entry_fails items entry acc σ Hin Hnone) as [e He].
  exists e. unfold file_step, io_bind, read_text, load_json.
  rewrite Ht, Hv. simpl.
  destruct (for_entry items acc σ) as [r σ']. simpl in He. by subst.
Qed.

Lemma build_output_code_fails (σ : fs) :
  stage_failure json_load σ → fails σ (build_output_code json_load).
Proof.
  intros Hfail. unfold fails. rewrite build_output_code_eq.
  destruct (files σ !! sql_template_path) as [tpl|] eqn:Ht; [|by eexists].
  assert (∀ file_names f, listings σ !! manifests_dir = Some file_names →
    f ∈ file_names → (∀ acc k, fails σ (file_step json_load f acc k)) →
    ∃ e, match listings σ !! manifests_dir with
         | Some file_names =>
             match (for_file_name json_load file_names [] σ).1 with
             | inl e => inl e
             | inr table_names =>
                 inr (header +:+ concat_lines (expand tpl <$> table_names))
             end
         | None => inl (OSError manifests_dir)
         end = inl e) as Hscan.
  { intros file_names f Hl Hin Hf. rewrite Hl.
    destruct (for_file_name_fails σ file_names f [] Hin Hf) as [e ->]. by eexists. }
  destruct Hfail as [?|Hl|file_names f text Hl Hin Hf Hv
                    |file_names f text items entry Hl Hin Hf Hv Hi Hnone].
  - congruence.
  - rewrite Hl. by eexists.
  - eapply Hscan; eauto using file_step_unparseable.
  - eapply Hscan; eauto using file_step_record_without_name.
Qed.

(** ** The same inputs *)

Lemma for_file_name_same (σ1 σ2 : fs) (file_names table_names : list string) :
  (∀ f, f ∈ file_names →
        files σ1 !! path_join manifests_dir f = files σ2 !! path_join manifests_dir f) →
  same_outcome σ1 σ2 (for_file_name json_load file_names table_names).
Proof.
  revert table_names.
  induction file_names as [|f rest IH]; intros acc Hfiles; simpl.
  - by apply stateless_same, stateless_ret.
  - pose proof (stateless_load_json json_load). pose proof stateless_for_entry.
    apply same_outcome_bind; [auto with io| |intros text].
    { unfold same_outcome, read_text. rewrite (Hfiles f) by left.
      by destruct (files σ2 !! _). }
    repeat (apply same_outcome_bind;
            [auto with io|apply stateless_same; auto with io|intros ?]).
    apply IH. intros g Hg. apply Hfiles. by right.
Qed.

Lemma build_output_code_same (σ1 σ2 : fs) :
  same_inputs σ1 σ2 →
  (build_output_code json_load σ1).1 = (build_output_code json_load σ2).1.
Proof.
  intros (Ht & Hl & Hf). rewrite !build_output_code_eq, <- Ht, <- Hl.
  destruct (files σ1 !! sql_template_path) as [tpl|]; [|done].
  destruct (listings σ1 !! manifests_dir) as [file_names|] eqn:Hnames; [|done].
  by rewrite (for_file_name_same σ1 σ2 file_names []
                (λ f, Hf file_names f eq_refl)).
Qed.

End FailureFacts.

(** Every text the script writes ends its last line. *)
Lemma concat_lines_ends (blocks : list string) (before : string) :
  ∃ body, (before +:+ nl) +:+ concat_lines blocks = body +:+ nl.
Proof.
  revert before. induction blocks as [|b bs IH]; intros before; simpl.
  - exists before. by rewrite append_nil_r.
  - destruct (IH (before +:+ nl +:+ b)) as [body Hbody]. exists body.
    rewrite <- Hbody. by rewrite !append_assoc.
Qed.

(** * The claims *)

(** C1, as the script has it.  A successful run writes the header line, an
    empty line, and then the expanded block of every Table Name in order,
    each block followed by one line feed.  For the template
    [SELECT '{table_name}' AS t;] and the entries a.B and C.d the two blocks
    stand on consecutive lines; for the same template with a line feed at
    its end the output is the one the specification shows, with an empty
    line after each block. *)
Theorem output_layout :
  (∀ json_load dir σ σ',
     generate_migration json_load dir σ = (inr (), σ') →
     ∃ sql_template file_names table_names,
       files σ !! sql_template_path = Some sql_template ∧
       listings σ !! manifests_dir = Some file_names ∧
       for_file_name json_load file_names [] σ = (inr table_names, σ) ∧
       files σ' !! output_path dir =
       Some (header_line +:+ nl +:+ nl +:+
             concat_lines (expand sql_template <$> table_names))) ∧
  files (main json_fragment_load (scenario_fs "SELECT '{table_name}' AS t;")).2
    !! output_path output_dir =
  Some (header_line +:+ nl +:+ nl +:+
        "SELECT 'a_b' AS t;" +:+ nl +:+ "SELECT 'c_d' AS t;" +:+ nl) ∧
  files (main json_fragment_load
           (scenario_fs ("SELECT '{table_name}' AS t;" +:+ nl))).2
    !! output_path output_dir =
  Some scenario_output.
Proof.
  split; [|split; by vm_compute].
  intros json_load dir σ σ'. rewrite generate_migration_eq.
  destruct (build_output_code json_load σ).1 as [e|code] eqn:Hb; [done|].
  destruct (listings σ !! dir) as [names|]; [|done]. intros [= <-].
  rewrite build_output_code_eq in Hb.
  destruct (files σ !! sql_template_path) as [tpl|]; [|done].
  destruct (listings σ !! manifests_dir) as [file_names|]; [|done].
  pose proof (readonly_for_file_name json_load file_names [] σ) as Hro.
  destruct (for_file_name json_load file_names [] σ) as [[e|table_names] σ1]
    eqn:Hscan; simplify_eq/=.
  exists tpl, file_names, table_names. do 3 (split; [done|]).
  rewrite lookup_insert_eq. unfold header. by rewrite !append_assoc.
Qed.

(** C1, as the claim states it, fails: with the template of the scenario the
    output of the script is not the text with an empty line after each
    block. *)
Lemma scenario_blocks_not_blank_separated :
  files (main json_fragment_load (scenario_fs "SELECT '{table_name}' AS t;")).2
    !! output_path output_dir ≠ Some scenario_output.
Proof. by vm_compute. Qed.

Lemma output_layout_scenario :
  ∃ sql_template file_names table_names,
    files (scenario_fs "SELECT '{table_name}' AS t;") !! sql_template_path =
      Some sql_template ∧
    listings (scenario_fs "SELECT '{table_name}' AS t;") !! manifests_dir =
      Some file_names ∧
    for_file_name json_fragment_load file_names []
      (scenario_fs "SELECT '{table_name}' AS t;") =
      (inr table_names, scenario_fs "SELECT '{table_name}' AS t;") ∧
    files (main json_fragment_load (scenario_fs "SELECT '{table_name}' AS t;")).2
      !! output_path output_dir =
    Some (header_line +:+ nl +:+ nl +:+
          concat_lines (expand sql_template <$> table_names)).
Proof.
  apply (proj1 output_layout json_fragment_load output_dir
           (scenario_fs "SELECT '{table_name}' AS t;")).
  unfold main. by destruct (generate_migration _ _ _) as [[e|[]] σ'] eqn:H;
    [vm_compute in H|].
Defined.

(** C2.  When every file of the manifest directory is an array of records
    that each bear a ProtoDefName, a run with an existing output directory
    succeeds and writes, after the header, exactly one block per record: the
    blocks are the expansions for the records in listing order, then array
    order, with repeats kept. *)
Theorem one_block_per_record (json_load : string → option pyval) (dir : string)
  (σ : fs) (sql_template : string) (records : list string) :
  files σ !! sql_template_path = Some sql_template →
  all_records json_load σ = Some records →
  is_Some (listings σ !! dir) →
  ∃ σ' blocks,
    generate_migration json_load dir σ = (inr (), σ') ∧
    blocks = (λ r, expand sql_template (table_name_of r)) <$> records ∧
    length blocks = length records ∧
    files σ' !! output_path dir = Some (header +:+ concat_lines blocks).
Proof.
  intros Ht Hr [names Hd].
  exists (after_write dir names
            (header +:+ concat_lines
               (expand sql_template <$> (table_name_of <$> records))) σ).
  eexists. split; [|split; [reflexivity|split]].
  - by rewrite generate_migration_eq,
      (build_output_code_records _ _ _ _ Ht Hr), Hd.
  - by rewrite length_fmap.
  - simpl. by rewrite lookup_insert_eq, <- list_fmap_compose.
Qed.

Lemma one_block_per_record_scenario :
  ∃ σ' blocks,
    generate_migration json_fragment_load output_dir
      (scenario_fs "SELECT '{table_name}' AS t;") = (inr (), σ') ∧
    blocks = (λ r, expand "SELECT '{table_name}' AS t;" (table_name_of r))
               <$> ["a.B"; "C.d"] ∧
    length blocks = 2 ∧
    files σ' !! output_path output_dir = Some (header +:+ concat_lines blocks).
Proof.
  apply (one_block_per_record json_fragment_load output_dir
           (scenario_fs "SELECT '{table_name}' AS t;")
           "SELECT '{table_name}' AS t;" ["a.B"; "C.d"]).
  - by vm_compute.
  - by vm_compute.
  - eexists. by vm_compute.
Defined.

(** C3.  The script derives the Table Name of a record by the rule: every
    dot becomes an underscore, then every upper-case letter its lower case,
    and no character is otherwise changed, added or dropped; foo.Bar.Baz
    gives foo_bar_baz. *)
Theorem table_name_derivation :
  (∀ entry s table_names σ,
     proto_def_name entry = Some s →
     for_entry [entry] table_names σ = (inr (table_names ++ [table_name_rule s]), σ)) ∧
  (∀ s, table_name_of s = table_name_rule s) ∧
  table_name_of "foo.Bar.Baz" = "foo_bar_baz".
Proof.
  split; [|split; [apply table_name_of_rule|reflexivity]].
  intros entry s acc σ Hs. rewrite <- table_name_of_rule.
  apply (for_entry_records [entry] [s]). simpl. by rewrite Hs.
Qed.

Lemma table_name_derivation_record :
  for_entry [PyDict [("ProtoDefName", PyStr "foo.Bar.Baz")]] [] empty_manifest_fs =
  (inr ([] ++ [table_name_rule "foo.Bar.Baz"]), empty_manifest_fs).
Proof.
  apply (proj1 table_name_derivation
           (PyDict [("ProtoDefName", PyStr "foo.Bar.Baz")]) "foo.Bar.Baz").
  reflexivity.
Defined.

(** Every text is token-free pieces with the token between them. *)
Lemma token_pieces (s : string) :
  ∃ pieces,
    pieces ≠ [] ∧ s = join token pieces ∧
    Forall (λ p, occurrences token p = 0) pieces.
Proof.
  remember (String.length s) as n eqn:Hn. revert s Hn.
  induction n as [n IH] using lt_wf_ind. intros s Hn.
  destruct (occurrences token s) as [|k] eqn:Hocc.
  { exists [s]. repeat split; [done|]. by apply Forall_singleton. }
  destruct (first_occurrence token s token_nonempty) as (before & after & -> & Hb);
    [lia|].
  destruct (IH (String.length after)) with (s := after)
    as (pieces & Hne & -> & Hpieces); [|done|].
  { rewrite Hn, !append_length. simpl. lia. }
  exists (before :: pieces). split; [done|]. split; [|by constructor].
  by destruct pieces.
Qed.

(** The last loop, for a template in token-free pieces: each block is the
    pieces with the Table Name between them. *)
Lemma for_table_name_pieces (pieces table_names : list string)
  (output_code : string) :
  Forall (λ p, occurrences token p = 0) pieces →
  for_table_name (join token pieces) table_names output_code =
  output_code +:+ concat_lines ((λ t, join t pieces) <$> table_names).
Proof.
  intros Hp. rewrite for_table_name_eq. f_equal.
  induction table_names as [|t rest IH]; [done|]. csimpl. rewrite IH.
  by rewrite expand_replace_from, (replace_from_join token t pieces).
Qed.

(** A block that holds the token leaves it in the text of the loop. *)
Lemma concat_lines_occurrences (blocks : list string) (block : string) :
  block ∈ blocks →
  occurrences token block ≤ occurrences token (concat_lines blocks).
Proof.
  induction 1 as [block rest|block other rest _ IH]; simpl.
  - apply (occurrences_app_l token block), token_nonempty.
  - etrans; [apply IH|]. rewrite <- append_assoc. apply occurrences_app_r.
Qed.

(** C5.  For a template that holds the token once, the last loop writes
    for each Table Name the text before the token, the Table Name, and the
    text after it; and for a template made of token-free pieces around any
    number of tokens, it writes for each Table Name the pieces with that
    Table Name in the place of every token. *)
Theorem expand_replaces_token :
  (∀ before after table_names output_code,
     occurrences token (before +:+ token +:+ after) = 1 →
     for_table_name (before +:+ token +:+ after) table_names output_code =
     output_code +:+
     concat_lines ((λ t, before +:+ t +:+ after) <$> table_names)) ∧
  (∀ pieces table_names output_code,
     Forall (λ p, occurrences token p = 0) pieces →
     for_table_name (join token pieces) table_names output_code =
     output_code +:+ concat_lines ((λ t, join t pieces) <$> table_names)).
Proof.
  split; [|apply for_table_name_pieces].
  intros before after names out Hocc. rewrite for_table_name_eq. f_equal.
  induction names as [|t rest IH]; [done|]. csimpl. rewrite IH.
  by rewrite expand_replace_from, (replace_from_once token t before after).
Qed.

Lemma expand_replaces_token_once :
  for_table_name ("SELECT '" +:+ token +:+ "' AS t;") ["a_b"; "c_d"] header =
  header +:+
  concat_lines ((λ t, "SELECT '" +:+ t +:+ "' AS t;") <$> ["a_b"; "c_d"]).
Proof.
  apply (proj1 expand_replaces_token "SELECT '" "' AS t;" ["a_b"; "c_d"] header).
  reflexivity.
Defined.

(** C6.  Every template is token-free pieces around its tokens, and the
    block of a Table Name is these pieces around the Table Name.  When that
    block holds the token text, because the Table Name holds it or because
    the Table Name completes it with the text around, the last loop still
    writes the block as it is: the token text is in what it writes, and no
    second pass replaces it. *)
Theorem expand_single_pass :
  (∀ sql_template,
     ∃ pieces,
       sql_template = join token pieces ∧
       Forall (λ p, occurrences token p = 0) pieces) ∧
  (∀ pieces table_names table_name output_code,
     Forall (λ p, occurrences token p = 0) pieces →
     table_name ∈ table_names →
     1 ≤ occurrences token (join table_name pieces) →
     for_table_name (join token pieces) table_names output_code =
     output_code +:+ concat_lines ((λ t, join t pieces) <$> table_names) ∧
     1 ≤ occurrences token
           (for_table_name (join token pieces) table_names output_code)).
Proof.
  split.
  - intros tpl. destruct (token_pieces tpl) as (pieces & _ & ? & ?). eauto.
  - intros pieces names t out Hp Hin Hocc.
    rewrite (for_table_name_pieces pieces names out Hp). split; [done|].
    etrans; [apply Hocc|].
    etrans; [|apply occurrences_app_r].
    apply (concat_lines_occurrences _ (join t pieces)).
    by apply (list_elem_of_fmap_2 (λ t, join t pieces)).
Qed.

(** The Table Name [le_nam] completes the token with the text around it. *)
Lemma expand_single_pass_completed_token :
  for_table_name (join token ["{tab"; "e}"]) ["a_b"; "le_nam"] header =
  header +:+
  concat_lines ((λ t, join t ["{tab"; "e}"]) <$> ["a_b"; "le_nam"]) ∧
  1 ≤ occurrences token
        (for_table_name (join token ["{tab"; "e}"]) ["a_b"; "le_nam"] header).
Proof.
  apply (proj2 expand_single_pass ["{tab"; "e}"] ["a_b"; "le_nam"] "le_nam" header).
  - by repeat constructor.
  - by right; left.
  - vm_compute. lia.
Defined.

(** A second pass would change such a block: the script makes one pass. *)
Example second_pass_differs :
  expand "a{table_name}b" "x{table_name}y" = "ax{table_name}yb" ∧
  expand (expand "a{table_name}b" "x{table_name}y") "x{table_name}y" =
  "axx{table_name}yyb" ∧
  for_table_name "{tab{table_name}e}" ["le_nam"] "" = token +:+ nl.
Proof. repeat split; reflexivity. Qed.

(** C4.  A run in which a stage before the writer fails (the template or
    the manifest directory is missing, a manifest file does not parse, or a
    record bears no ProtoDefName string) ends in an exception and leaves the
    file system as it was: no output file is created, and an output file of
    an earlier run keeps its content. *)
Theorem failure_writes_nothing (json_load : string → option pyval) (dir : string)
  (σ : fs) :
  stage_failure json_load σ →
  ∃ e, generate_migration json_load dir σ = (inl e, σ).
Proof.
  intros [e He]%build_output_code_fails. exists e.
  by rewrite generate_migration_eq, He.
Qed.

Lemma failure_writes_nothing_no_manifests :
  ∃ e, generate_migration json_fragment_load output_dir no_manifests_fs =
       (inl e, no_manifests_fs).
Proof.
  apply (failure_writes_nothing json_fragment_load output_dir no_manifests_fs).
  apply missing_manifest_dir. reflexivity.
Defined.

(** C7.  Two runs from file systems with the same template and the same
    manifests, whatever else differs, write the same text. *)
Theorem same_inputs_same_output (json_load : string → option pyval) (dir : string)
  (σ1 σ2 σ1' σ2' : fs) :
  same_inputs σ1 σ2 →
  generate_migration json_load dir σ1 = (inr (), σ1') →
  generate_migration json_load dir σ2 = (inr (), σ2') →
  ∃ text,
    files σ1' !! output_path dir = Some text ∧
    files σ2' !! output_path dir = Some text.
Proof.
  intros Hsame. rewrite !generate_migration_eq.
  rewrite (build_output_code_same json_load σ1 σ2 Hsame).
  destruct (build_output_code json_load σ2).1 as [e|code]; [done|].
  destruct (listings σ1 !! dir), (listings σ2 !! dir); try done.
  intros [= <-] [= <-]. exists code. simpl. by rewrite !lookup_insert_eq.
Qed.

(** The paths of the script are apart: the output file is neither the
    template nor a file of the manifest directory. *)
Lemma output_not_template : output_path output_dir ≠ sql_template_path.
Proof. by vm_compute. Qed.

Lemma output_not_manifest (f : string) :
  path_join manifests_dir f ≠ output_path output_dir.
Proof.
  change (path_join manifests_dir f)
    with (if startswith f "/" then f else manifests_dir +:+ f).
  destruct f as [|c f]; [by vm_compute|].
  change (startswith (String c f) "/") with (Ascii.eqb "/" c && true).
  destruct (Ascii.eqb_spec "/" c) as [<-|]; simpl; by vm_compute.
Qed.

Lemma same_inputs_with_output (old : string) (σ : fs) :
  same_inputs σ (with_output output_dir old σ).
Proof.
  unfold same_inputs, with_output. simpl. split; [|split; [done|]].
  - by rewrite lookup_insert_ne by apply output_not_template.
  - intros file_names f _ _.
    rewrite lookup_insert_ne; [done|]. intros Heq. by apply (output_not_manifest f).
Qed.

Lemma same_inputs_after_write (names : list string) (text : string) (σ : fs) :
  same_inputs σ (after_write output_dir names text σ).
Proof.
  unfold same_inputs, after_write. simpl. split; [|split].
  - by rewrite lookup_insert_ne by apply output_not_template.
  - destruct (bool_decide _); [done|]. by rewrite lookup_insert_ne.
  - intros file_names f _ _.
    rewrite lookup_insert_ne; [done|]. intros Heq. by apply (output_not_manifest f).
Qed.

(** X8.  Running the script again changes nothing: a second run on the file
    system the first one left succeeds and leaves it as it is. *)
Lemma main_twice (json_load : string → option pyval) (σ σ' : fs) :
  main json_load σ = (inr (), σ') → main json_load σ' = (inr (), σ').
Proof.
  unfold main. rewrite !generate_migration_eq.
  destruct (build_output_code json_load σ).1 as [e|code] eqn:Hb; [done|].
  destruct (listings σ !! output_dir) as [names|] eqn:Hl; [|done].
  intros [= <-].
  rewrite <- (build_output_code_same json_load σ _
                (same_inputs_after_write names code σ)), Hb.
  unfold after_write at 1 2. simpl.
  assert (∃ names',
    (if bool_decide (output_name ∈ names) then listings σ
     else <[output_dir := names ++ [output_name]]> (listings σ)) !! output_dir
    = Some names' ∧ output_name ∈ names') as (names' & -> & Hin).
  { case_bool_decide.
    - by exists names.
    - exists (names ++ [output_name]). rewrite lookup_insert_eq.
      split; [done|]. apply elem_of_app. right. by left. }
  f_equal. unfold after_write. simpl. rewrite insert_insert_eq.
  by rewrite (bool_decide_eq_true_2 _ Hin).
Qed.

Lemma same_inputs_scenario :
  ∃ text,
    files (main json_fragment_load (scenario_fs "SELECT '{table_name}' AS t;")).2
      !! output_path output_dir = Some text ∧
    files (main json_fragment_load
             (with_output output_dir "-- an earlier output"
                (scenario_fs "SELECT '{table_name}' AS t;"))).2
      !! output_path output_dir = Some text.
Proof.
  apply (same_inputs_same_output json_fragment_load output_dir
           (scenario_fs "SELECT '{table_name}' AS t;")
           (with_output output_dir "-- an earlier output"
              (scenario_fs "SELECT '{table_name}' AS t;"))).
  - apply same_inputs_with_output.
  - by vm_compute.
  - by vm_compute.
Defined.

(** C8.  After a successful run the output file holds exactly the text
    assembled in that run, whatever the file system held before; and for the
    paths of the script the text does not depend on the earlier content of
    the output file. *)
Theorem output_replaced :
  (∀ json_load dir σ σ',
     generate_migration json_load dir σ = (inr (), σ') →
     ∃ output_code,
       (build_output_code json_load σ).1 = inr output_code ∧
       files σ' !! output_path dir = Some output_code) ∧
  (∀ json_load old σ σ',
     main json_load σ = (inr (), σ') →
     ∃ σ'',
       main json_load (with_output output_dir old σ) = (inr (), σ'') ∧
       files σ'' !! output_path output_dir = files σ' !! output_path output_dir).
Proof.
  split.
  - intros json_load dir σ σ'. rewrite generate_migration_eq.
    destruct (build_output_code json_load σ).1 as [e|code]; [done|].
    destruct (listings σ !! dir); [|done]. intros [= <-].
    exists code. simpl. by rewrite lookup_insert_eq.
  - intros json_load old σ σ'. unfold main. rewrite !generate_migration_eq.
    rewrite <- (build_output_code_same json_load σ _
                  (same_inputs_with_output old σ)).
    destruct (build_output_code json_load σ).1 as [e|code]; [done|].
    simpl. destruct (listings σ !! output_dir); [|done]. intros [= <-].
    eexists. split; [done|]. simpl. by rewrite !lookup_insert_eq.
Qed.

Lemma output_replaced_scenario :
  ∃ output_code,
    (build_output_code json_fragment_load
       (with_output output_dir "-- an earlier output"
          (scenario_fs "SELECT '{table_name}' AS t;"))).1 = inr output_code ∧
    files (main json_fragment_load
             (with_output output_dir "-- an earlier output"
                (scenario_fs "SELECT '{table_name}' AS t;"))).2
      !! output_path output_dir = Some output_code.
Proof.
  apply (proj1 output_replaced json_fragment_load output_dir
           (with_output output_dir "-- an earlier output"
              (scenario_fs "SELECT '{table_name}' AS t;"))).
  by vm_compute.
Defined.

(** C9.  When the manifest directory is listed and every file in it is an
    empty array (or there is none), a run with the template and the output
    directory present succeeds and writes the header line and one empty line
    only; and whatever a successful run writes ends with a line feed. *)
Theorem no_records_header_only :
  (∀ json_load dir σ sql_template file_names,
     files σ !! sql_template_path = Some sql_template →
     listings σ !! manifests_dir = Some file_names →
     (∀ f, f ∈ file_names →
           ∃ text, files σ !! path_join manifests_dir f = Some text ∧
                   json_load text = Some (PyList [])) →
     is_Some (listings σ !! dir) →
     ∃ σ', generate_migration json_load dir σ = (inr (), σ') ∧
           files σ' !! output_path dir = Some (header_line +:+ nl +:+ nl)) ∧
  (∀ json_load dir σ σ',
     generate_migration json_load dir σ = (inr (), σ') →
     ∃ body, files σ' !! output_path dir = Some (body +:+ nl)).
Proof.
  split.
  - intros json_load dir σ tpl file_names Ht Hl Hfiles [names Hd].
    assert (files_records json_load σ file_names = Some []) as Hrec.
    { clear Hl. induction file_names as [|f rest IH]; [done|]. simpl.
      destruct (Hfiles f) as (text & Hf & Hv); [by left|].
      unfold file_records. rewrite Hf. simpl. rewrite Hv. simpl.
      rewrite IH; [done|]. intros g Hg. apply Hfiles. by right. }
    eexists. rewrite generate_migration_eq.
    rewrite (build_output_code_records json_load σ tpl []), Hd.
    + split; [done|]. simpl. rewrite lookup_insert_eq. unfold header.
      by rewrite !append_assoc.
    + done.
    + unfold all_records. rewrite Hl. simpl. done.
  - intros json_load dir σ σ'. rewrite generate_migration_eq.
    rewrite build_output_code_eq.
    destruct (files σ !! sql_template_path) as [tpl|]; [|done].
    destruct (listings σ !! manifests_dir) as [file_names|]; [|done].
    destruct (for_file_name _ _ _ σ).1 as [e|table_names]; [done|].
    destruct (listings σ !! dir); [|done]. intros [= <-].
    destruct (concat_lines_ends (expand tpl <$> table_names)
                (header_line +:+ nl)) as [body Hbody].
    exists body. simpl. rewrite lookup_insert_eq. f_equal.
    rewrite <- Hbody. unfold header. by rewrite !append_assoc.
Qed.

Lemma no_records_header_only_empty_manifest :
  ∃ σ', generate_migration json_fragment_load output_dir empty_manifest_fs =
          (inr (), σ') ∧
        files σ' !! output_path output_dir = Some (header_line +:+ nl +:+ nl).
Proof.
  apply (proj1 no_records_header_only json_fragment_load output_dir
           empty_manifest_fs "SELECT '{table_name}' AS t;" ["none.json"]).
  - reflexivity.
  - reflexivity.
  - intros f ->%list_elem_of_singleton. exists "[ ]". split; reflexivity.
  - eexists. reflexivity.
Defined.

(** *** Names beyond Latin-1 *)
















(** * Further properties of the script *)

(** ** The loops over the manifests *)

Section LoopFacts.

Variable json_load : string → option pyval.

(** A successful inner loop has met records only. *)
Lemma for_entry_inv (entries : list pyval) (table_names names : list string)
  (σ σ' : fs) :
  for_entry entries table_names σ = (inr names, σ') →
  ∃ records,
    proto_def_names entries = Some records ∧
    names = table_names ++ (table_name_of <$> records) ∧ σ' = σ.
Proof.
  revert table_names.
  induction entries as [|entry rest IH]; intros acc; simpl.
  - intros [= <- <-]. exists []. by rewrite app_nil_r.
  - unfold io_bind. destruct entry as [| | | | | |members]; try done. simpl.
    destruct (dict_get members "ProtoDefName") as [v|]; [|done].
    destruct v as [| | | |s| |]; try done. simpl.
    intros (records & -> & -> & ->)%IH. exists (s :: records).
    by rewrite <- app_assoc.
Qed.

(** The inner loop passes over records and goes on with what follows. *)
Lemma for_entry_app (good rest : list pyval) (records table_names : list string)
  (σ : fs) :
  proto_def_names good = Some records →
  for_entry (good ++ rest) table_names σ =
  for_entry rest (table_names ++ (table_name_of <$> records)) σ.
Proof.
  revert records table_names.
  induction good as [|entry good IH]; intros records acc Hr; simplify_eq/=.
  - by rewrite app_nil_r.
  - destruct (proto_def_name entry) as [s|] eqn:Hs; simplify_eq/=.
    destruct (proto_def_names good) as [ss|]; simplify_eq/=.
    destruct entry as [| | | | | |members]; simplify_eq/=.
    destruct (dict_get members "ProtoDefName") as [[| | | |s'| |]|];
      simplify_eq/=.
    unfold io_bind. simpl. rewrite (IH ss) by done. by rewrite <- app_assoc.
Qed.

(** The names gathered before do not change what the inner loop does. *)
Lemma for_entry_acc (entries : list pyval) (before table_names : list string)
  (σ : fs) :
  (for_entry entries (before ++ table_names) σ).1 =
  match (for_entry entries table_names σ).1 with
  | inl e => inl e
  | inr names => inr (before ++ names)
  end.
Proof.
  revert table_names σ.
  induction entries as [|entry rest IH]; intros acc σ; [done|].
  simpl. unfold io_bind.
  destruct (getitem entry "ProtoDefName" σ) as [[e|v] σ1]; [done|].
  destruct (method_replace v "." "_" σ1) as [[e|s] σ2]; [done|].
  rewrite <- app_assoc. apply IH.
Qed.

Lemma for_file_name_acc (file_names before table_names : list string) (σ : fs) :
  (for_file_name json_load file_names (before ++ table_names) σ).1 =
  match (for_file_name json_load file_names table_names σ).1 with
  | inl e => inl e
  | inr names => inr (before ++ names)
  end.
Proof.
  revert table_names σ.
  induction file_names as [|f rest IH]; intros acc σ; [done|].
  simpl. unfold io_bind.
  destruct (read_text _ σ) as [[e|text] σ1]; [done|].
  destruct (load_json json_load text σ1) as [[e|v] σ2]; [done|].
  destruct (iterate v σ2) as [[e|entries] σ3]; [done|].
  pose proof (for_entry_acc entries before acc σ3) as Hacc.
  pose proof (stateless_readonly _ (stateless_for_entry entries (before ++ acc)) σ3).
  pose proof (stateless_readonly _ (stateless_for_entry entries acc) σ3).
  destruct (for_entry entries (before ++ acc) σ3) as [r1 σ4].
  destruct (for_entry entries acc σ3) as [r2 σ5]. simpl in *. subst.
  destruct r2 as [e|names]; [done|]. apply IH.
Qed.

(** The outer loop over a listing in two parts. *)
Lemma for_file_name_app (first second table_names : list string) (σ : fs) :
  for_file_name json_load (first ++ second) table_names σ =
  (let* names := for_file_name json_load first table_names in
   for_file_name json_load second names) σ.
Proof.
  revert table_names σ. induction first as [|f rest IH]; intros acc σ; [done|].
  simpl. unfold io_bind in *.
  destruct (read_text _ σ) as [[e|text] σ1]; [done|].
  destruct (load_json json_load text σ1) as [[e|v] σ2]; [done|].
  destruct (iterate v σ2) as [[e|entries] σ3]; [done|].
  destruct (for_entry entries acc σ3) as [[e|names] σ4]; [done|].
  apply IH.
Qed.

(** The outer loop succeeds on the accepted manifests, and on them only. *)
Lemma for_file_name_accepted (file_names table_names names : list string)
  (σ σ' : fs) :
  for_file_name json_load file_names table_names σ = (inr names, σ') ↔
  ∃ records,
    accepted_files_records json_load σ file_names = Some records ∧
    names = table_names ++ (table_name_of <$> records) ∧ σ' = σ.
Proof.
  revert table_names. induction file_names as [|f rest IH]; intros acc; simpl.
  { split.
    - intros [= <- <-]. exists []. by rewrite app_nil_r.
    - intros (records & [= <-] & -> & ->). by rewrite app_nil_r. }
  unfold io_bind, read_text, load_json, accepted_file_records.
  destruct (files σ !! path_join manifests_dir f) as [text|]; simpl;
    [|split; [done|by intros (? & ? & _)]].
  destruct (json_load text) as [v|]; simpl;
    [|split; [done|by intros (? & ? & _)]].
  destruct v as [| | | |s|items|members]; simpl;
    try (split; [done|by intros (? & ? & _)]).
  - (* a str: only the empty one has no turn *)
    destruct s as [|c s]; simpl.
    + rewrite IH. split; intros (records & Hr & -> & ->).
      * exists records. by rewrite Hr.
      * exists records. by destruct (accepted_files_records _ _ _); simplify_eq/=.
    + split; [done|by intros (? & ? & _)].
  - (* a list: its records *)
    destruct (for_entry items acc σ) as [[e|names'] σ1] eqn:He.
    + split; [done|]. intros (records & Hr & _).
      destruct (proto_def_names items) as [rs|] eqn:Hrs; simplify_eq/=.
      by rewrite (for_entry_records _ _ _ _ Hrs) in He.
    + apply for_entry_inv in He as (rs & Hrs & -> & ->). rewrite Hrs. simpl.
      rewrite IH. split; intros (records & Hr & -> & ->).
      * exists (rs ++ records). rewrite Hr. simpl.
        by rewrite fmap_app, <- app_assoc.
      * destruct (accepted_files_records _ _ _) as [rss|]; simplify_eq/=.
        exists rss. by rewrite fmap_app, <- app_assoc.
  - (* a dict: only the empty one has no turn *)
    destruct members as [|[k w] members]; simpl.
    + rewrite IH. split; intros (records & Hr & -> & ->).
      * exists records. by rewrite Hr.
      * exists records. by destruct (accepted_files_records _ _ _); simplify_eq/=.
    + split; [done|by intros (? & ? & _)].
Qed.

End LoopFacts.

(** X1.  Before it writes, the run looks at the template, the manifest
    directory, the manifest files and the output directory in this order;
    what is missing or bad first gives the exception, and the file system is
    then the one the run started from. *)
Theorem run_by_cases (json_load : string → option pyval) (dir : string) (σ : fs) :
  (files σ !! sql_template_path = None →
   generate_migration json_load dir σ = (inl (ReadError sql_template_path), σ)) ∧
  (is_Some (files σ !! sql_template_path) →
   listings σ !! manifests_dir = None →
   generate_migration json_load dir σ = (inl (OSError manifests_dir), σ)) ∧
  (∀ file_names e,
     is_Some (files σ !! sql_template_path) →
     listings σ !! manifests_dir = Some file_names →
     (for_file_name json_load file_names [] σ).1 = inl e →
     generate_migration json_load dir σ = (inl e, σ)) ∧
  (∀ file_names table_names,
     is_Some (files σ !! sql_template_path) →
     listings σ !! manifests_dir = Some file_names →
     (for_file_name json_load file_names [] σ).1 = inr table_names →
     listings σ !! dir = None →
     generate_migration json_load dir σ = (inl (OSError (output_path dir)), σ)).
Proof.
  rewrite generate_migration_eq, build_output_code_eq.
  split; [|split; [|split]].
  - by intros ->.
  - by intros [tpl ->] ->.
  - by intros file_names e [tpl ->] -> ->.
  - by intros file_names table_names [tpl ->] -> -> ->.
Qed.

Lemma run_by_cases_no_output_dir :
  generate_migration json_fragment_load "out/" two_manifests_fs =
  (inl (OSError (output_path "out/")), two_manifests_fs).
Proof.
  apply (proj2 (proj2 (proj2 (run_by_cases json_fragment_load "out/"
                                two_manifests_fs)))
           ["a.json"; "b.json"] ["a_b"; "c_d"]).
  - eexists. by vm_compute.
  - by vm_compute.
  - by vm_compute.
  - by vm_compute.
Defined.

(** X2.  The scan succeeds exactly when every listed file can be read, is
    decoded, and holds an array of records that each bear a ProtoDefName
    string (or an empty object or empty string, which give no record); then
    the names are the Table Names of all records in order, none left out and
    none added, and the file system is unchanged. *)
Theorem scan_accepts_exactly (json_load : string → option pyval)
  (file_names names : list string) (σ σ' : fs) :
  for_file_name json_load file_names [] σ = (inr names, σ') ↔
  ∃ records,
    accepted_files_records json_load σ file_names = Some records ∧
    names = table_name_of <$> records ∧ σ' = σ.
Proof. apply for_file_name_accepted. Qed.

Lemma scan_accepts_exactly_two_manifests :
  for_file_name json_fragment_load ["a.json"; "b.json"] [] two_manifests_fs =
  (inr ["a_b"; "c_d"], two_manifests_fs).
Proof.
  apply (proj2 (scan_accepts_exactly json_fragment_load ["a.json"; "b.json"]
                  ["a_b"; "c_d"] two_manifests_fs two_manifests_fs)).
  exists ["a.B"; "C.d"]. by vm_compute.
Defined.

(** X3.  After records that bear a ProtoDefName string, the first entry
    that does not decides the exception, whatever follows it: a dict without
    the key raises KeyError, a dict whose value is not a [str] raises
    AttributeError, and an entry that is not a dict raises TypeError. *)
Theorem first_bad_record_raises (good : list pyval) (records : list string)
  (bad : pyval) (rest : list pyval) (table_names : list string) (σ : fs) :
  proto_def_names good = Some records →
  (∀ members,
     bad = PyDict members → dict_get members "ProtoDefName" = None →
     for_entry (good ++ bad :: rest) table_names σ =
     (inl (KeyError "ProtoDefName"), σ)) ∧
  (∀ members v,
     bad = PyDict members → dict_get members "ProtoDefName" = Some v →
     (∀ s, v ≠ PyStr s) →
     for_entry (good ++ bad :: rest) table_names σ = (inl AttributeError, σ)) ∧
  ((∀ members, bad ≠ PyDict members) →
   for_entry (good ++ bad :: rest) table_names σ = (inl TypeError, σ)).
Proof.
  intros Hgood. rewrite (for_entry_app good _ records) by done.
  split; [|split].
  - intros members -> Hd. simpl. unfold io_bind. simpl. by rewrite Hd.
  - intros members v -> Hd Hv. simpl. unfold io_bind. simpl. rewrite Hd.
    destruct v; try done. by destruct (Hv s).
  - intros Hbad. destruct bad; try done. by destruct (Hbad members).
Qed.

Lemma first_bad_record_raises_missing_key :
  for_entry
    ([PyDict [("ProtoDefName", PyStr "a.B")]] ++
     PyDict [("Name", PyStr "C.d")] :: [PyInt 7]) [] two_manifests_fs =
  (inl (KeyError "ProtoDefName"), two_manifests_fs).
Proof.
  apply (proj1 (first_bad_record_raises
                  [PyDict [("ProtoDefName", PyStr "a.B")]] ["a.B"]
                  (PyDict [("Name", PyStr "C.d")]) [PyInt 7] []
                  two_manifests_fs eq_refl)
           [("Name", PyStr "C.d")]); reflexivity.
Defined.

(** X4.  After files that are accepted, the first listed file that is not
    decides the exception, whatever follows it: the exception of [open] and
    [read] when it cannot be read, the exception of [json.load] when it is
    not decoded, TypeError when it holds a number, a boolean, null, a
    non-empty object or a non-empty string. *)
Theorem first_bad_file_raises (json_load : string → option pyval)
  (good : list string) (records : list string) (f : string)
  (rest table_names : list string) (σ : fs) :
  accepted_files_records json_load σ good = Some records →
  (files σ !! path_join manifests_dir f = None →
   for_file_name json_load (good ++ f :: rest) table_names σ =
   (inl (ReadError (path_join manifests_dir f)), σ)) ∧
  (∀ text,
     files σ !! path_join manifests_dir f = Some text →
     json_load text = None →
     for_file_name json_load (good ++ f :: rest) table_names σ =
     (inl LoadError, σ)) ∧
  (∀ text v,
     files σ !! path_join manifests_dir f = Some text →
     json_load text = Some v →
     raises_type_error v = true →
     for_file_name json_load (good ++ f :: rest) table_names σ =
     (inl TypeError, σ)).
Proof.
  intros Hgood. rewrite for_file_name_app.
  assert (for_file_name json_load good table_names σ =
          (inr (table_names ++ (table_name_of <$> records)), σ)) as Hscan.
  { apply for_file_name_accepted. by exists records. }
  rewrite (io_bind_inr _ _ _ _ _ Hscan). simpl.
  unfold io_bind, read_text, load_json. split; [|split].
  - by intros ->.
  - by intros text -> ->.
  - intros text v -> -> Hv.
    destruct v as [| | | |[|c s]|items|[|[k w] members]]; by simplify_eq/=.
Qed.

Lemma first_bad_file_raises_object :
  for_file_name json_fragment_load (["a.json"] ++ "b.json" :: ["c.json"]) []
    object_manifest_fs =
  (inl TypeError, object_manifest_fs).
Proof.
  assert (accepted_files_records json_fragment_load object_manifest_fs ["a.json"]
          = Some ["a.B"; "C.d"]) as Hgood by (by vm_compute).
  apply (proj2 (proj2 (first_bad_file_raises json_fragment_load
                         ["a.json"] ["a.B"; "C.d"] "b.json" ["c.json"] []
                         object_manifest_fs Hgood))
           (record_text "a.B") (PyDict [("ProtoDefName", PyStr "a.B")]));
    by vm_compute.
Defined.

(** X5.  The names gathered before the scan of a listing are kept in front,
    as they are, and have no part in whether the scan succeeds. *)
Theorem scan_keeps_earlier_names (json_load : string → option pyval)
  (file_names before : list string) (σ : fs) :
  (for_file_name json_load file_names before σ).1 =
  match (for_file_name json_load file_names [] σ).1 with
  | inl e => inl e
  | inr names => inr (before ++ names)
  end.
Proof.
  rewrite <- (for_file_name_acc json_load file_names before [] σ).
  by rewrite app_nil_r.
Qed.

(** X6.  The scan of a listing in two parts: an exception in the first part
    is the exception of the whole, else an exception in the second part is,
    else the names are those of the first part followed by those of the
    second. *)
Theorem scan_in_two_parts (json_load : string → option pyval)
  (first second : list string) (σ : fs) :
  (for_file_name json_load (first ++ second) [] σ).1 =
  match (for_file_name json_load first [] σ).1 with
  | inl e => inl e
  | inr names1 =>
      match (for_file_name json_load second [] σ).1 with
      | inl e => inl e
      | inr names2 => inr (names1 ++ names2)
      end
  end.
Proof.
  rewrite for_file_name_app. unfold io_bind.
  pose proof (readonly_for_file_name json_load first [] σ) as Hro.
  destruct (for_file_name json_load first [] σ) as [[e|names1] σ1];
    simpl in *; subst; [done|].
  rewrite <- (app_nil_r names1) at 1. apply for_file_name_acc.
Qed.

(** X7.  Whatever its outcome, a run leaves every file but the output file
    and every listing but that of the output directory as they were. *)
Theorem run_writes_output_only (json_load : string → option pyval) (dir : string)
  (σ σ' : fs) (r : exn + ()) :
  generate_migration json_load dir σ = (r, σ') →
  (∀ path, path ≠ output_path dir → files σ' !! path = files σ !! path) ∧
  (∀ d, d ≠ dir → listings σ' !! d = listings σ !! d).
Proof.
  rewrite generate_migration_eq.
  destruct (build_output_code json_load σ).1 as [e|code];
    [by intros [= <- <-]|].
  destruct (listings σ !! dir) as [names|]; [|by intros [= <- <-]].
  intros [= <- <-]. unfold after_write. simpl. split.
  - intros path Hp. by rewrite lookup_insert_ne.
  - intros d Hd. destruct (bool_decide _); [done|]. by rewrite lookup_insert_ne.
Qed.

Lemma run_writes_output_only_scenario :
  (∀ path, path ≠ output_path output_dir →
     files (main json_fragment_load two_manifests_fs).2 !! path =
     files two_manifests_fs !! path) ∧
  (∀ d, d ≠ output_dir →
     listings (main json_fragment_load two_manifests_fs).2 !! d =
     listings two_manifests_fs !! d).
Proof.
  apply (run_writes_output_only json_fragment_load output_dir two_manifests_fs
           _ (main json_fragment_load two_manifests_fs).1).
  unfold main. by destruct (generate_migration _ _ _).
Defined.

Lemma main_twice_two_manifests :
  main json_fragment_load (main json_fragment_load two_manifests_fs).2 =
  (inr (), (main json_fragment_load two_manifests_fs).2).
Proof.
  apply (main_twice json_fragment_load two_manifests_fs). by vm_compute.
Defined.

(** The order of the listing changes the order of the records only. *)
Lemma accepted_files_records_perm (json_load : string → option pyval) (σ : fs)
  (l1 l2 : list string) (r1 : list string) :
  l1 ≡ₚ l2 →
  accepted_files_records json_load σ l1 = Some r1 →
  ∃ r2, accepted_files_records json_load σ l2 = Some r2 ∧ r1 ≡ₚ r2.
Proof.
  intros Hperm. revert r1.
  induction Hperm as [|f l l' _ IH|f g l|l l' l'' _ IH1 _ IH2]; intros r1; simpl.
  - intros [= <-]. by exists [].
  - destruct (accepted_file_records json_load σ f) as [rs|]; [|done]. simpl.
    destruct (accepted_files_records json_load σ l) as [rss|]; [|done].
    intros [= <-]. destruct (IH rss eq_refl) as (rss' & -> & Hp).
    exists (rs ++ rss'). split; [done|]. by rewrite Hp.
  - destruct (accepted_file_records json_load σ f) as [rf|]; simpl;
      [|by destruct (accepted_file_records json_load σ g)].
    destruct (accepted_file_records json_load σ g) as [rg|]; [|done]. simpl.
    destruct (accepted_files_records json_load σ l) as [rss|]; [|done]. simpl.
    intros [= <-]. exists (rf ++ rg ++ rss). split; [done|].
    by rewrite !app_assoc, (Permutation_app_comm rg rf).
  - intros H1. destruct (IH1 r1 H1) as (r2 & H2 & Hp12).
    destruct (IH2 r2 H2) as (r3 & H3 & Hp23). exists r3. split; [done|].
    by etrans.
Qed.

(** X9.  When the scan of a listing succeeds, the scan of the same files
    listed in another order succeeds too, with the same Table Names, each as
    often, in another order. *)
Theorem listing_order_permutes_names (json_load : string → option pyval)
  (l1 l2 names1 : list string) (σ σ1 : fs) :
  l1 ≡ₚ l2 →
  for_file_name json_load l1 [] σ = (inr names1, σ1) →
  ∃ names2,
    for_file_name json_load l2 [] σ = (inr names2, σ) ∧ names1 ≡ₚ names2.
Proof.
  intros Hperm (r1 & Hr1 & -> & ->)%for_file_name_accepted.
  destruct (accepted_files_records_perm json_load σ l1 l2 r1 Hperm Hr1)
    as (r2 & Hr2 & Hp).
  exists (table_name_of <$> r2). split.
  - apply for_file_name_accepted. by exists r2.
  - by apply fmap_Permutation.
Qed.

Lemma listing_order_permutes_names_two_manifests :
  ∃ names2,
    for_file_name json_fragment_load ["b.json"; "a.json"] [] two_manifests_fs =
    (inr names2, two_manifests_fs) ∧
    ["a_b"; "c_d"] ≡ₚ names2.
Proof.
  apply (listing_order_permutes_names json_fragment_load
           ["a.json"; "b.json"] ["b.json"; "a.json"] ["a_b"; "c_d"]
           two_manifests_fs two_manifests_fs).
  - apply perm_swap.
  - by vm_compute.
Defined.

(** ** Expansion *)


Lemma startswith_snoc (s p : string) (c : ascii) :
  forallb (λ x, negb (Ascii.eqb c x)) (chars p) = true →
  startswith (s +:+ String c "") p = startswith s p.
Proof.
  revert s. induction p as [|a p IH]; intros s Hc; [done|].
  simpl in Hc. apply andb_true_iff in Hc as [Ha Hp].
  destruct s as [|b s].
  - rewrite append_nil_l, startswith_cons, Ascii.eqb_sym.
    by destruct (Ascii.eqb c a).
  - rewrite append_cons, !startswith_cons. by rewrite IH.
Qed.

(** A last character that is not in the pattern is copied. *)
Lemma replace_from_snoc (old new s : string) (c : ascii) :
  old ≠ "" →
  forallb (λ x, negb (Ascii.eqb c x)) (chars old) = true →
  replace_from old new 0 (s +:+ String c "") =
  replace_from old new 0 s +:+ String c "".
Proof.
  intros Hold Hc. remember (String.length s) as n eqn:Hn. revert s Hn.
  induction n as [n IH] using lt_wf_ind. intros [|x s] Hn.
  - rewrite append_nil_l, replace_from_cons.
    rewrite <- (append_nil_l (String c "")) at 1.
    rewrite startswith_snoc by done. by destruct old.
  - destruct (startswith (String x s) old) eqn:Hs.
    + pose proof (startswith_split _ _ Hs) as Hsplit.
      pose proof (f_equal String.length Hsplit) as Hlen.
      rewrite append_length in Hlen.
      rewrite Hsplit, append_assoc, !replace_from_match, append_assoc by done.
      f_equal. eapply IH; [|done]. destruct old; [done|]. simpl in *. lia.
    + rewrite append_cons, !replace_from_cons, <- append_cons.
      rewrite startswith_snoc, Hs by done. rewrite append_cons. f_equal.
      eapply IH; [|done]. simpl in Hn. lia.
Qed.

Lemma concat_lines_copies (sql_template : string) (table_names : list string) :
  (∀ t, expand sql_template t = sql_template) →
  concat_lines (expand sql_template <$> table_names) =
  concat_lines (replicate (length table_names) sql_template).
Proof.
  intros Hcopy. induction table_names as [|t rest IH]; [done|]. csimpl.
  by rewrite Hcopy, IH.
Qed.

(** X12.  A template without the token is copied: every block is the
    template itself, and the last loop appends as many copies of it, each
    with its line feed, as there are Table Names. *)
Theorem expand_without_token (sql_template : string) :
  occurrences token sql_template = 0 →
  (∀ table_name, expand sql_template table_name = sql_template) ∧
  (∀ table_names output_code,
     for_table_name sql_template table_names output_code =
     output_code +:+
     concat_lines (replicate (length table_names) sql_template)).
Proof.
  intros Hocc.
  assert (∀ t, expand sql_template t = sql_template) as Hcopy.
  { intros t. rewrite expand_replace_from. by apply replace_from_none. }
  split; [done|]. intros names out.
  by rewrite for_table_name_eq, concat_lines_copies.
Qed.

Lemma expand_without_token_plain_sql :
  (∀ table_name, expand "SELECT 1;" table_name = "SELECT 1;") ∧
  (∀ table_names output_code,
     for_table_name "SELECT 1;" table_names output_code =
     output_code +:+ concat_lines (replicate (length table_names) "SELECT 1;")).
Proof. apply (expand_without_token "SELECT 1;"). reflexivity. Defined.


(** X14.  A line feed at the end of the template stays at the end of every
    block: with such a template the last loop leaves an empty line after
    each block. *)
Theorem expand_keeps_final_newline :
  (∀ sql_template table_name,
     expand (sql_template +:+ nl) table_name =
     expand sql_template table_name +:+ nl) ∧
  (∀ sql_template table_names output_code,
     for_table_name (sql_template +:+ nl) table_names output_code =
     output_code +:+
     concat_lines ((λ t, expand sql_template t +:+ nl) <$> table_names)).
Proof.
  assert (∀ tpl t, expand (tpl +:+ nl) t = expand tpl t +:+ nl) as Hnl.
  { intros tpl t. rewrite !expand_replace_from.
    by apply replace_from_snoc. }
  split; [done|]. intros tpl names out. rewrite for_table_name_eq. f_equal.
  induction names as [|t rest IH]; [done|]. csimpl. by rewrite Hnl, IH.
Qed.
